(** * POS front end (app/page.jsx): cart aggregation and API clients

    The page component keeps four pieces of React state -- the staged
    [code], [name] and [price] text fields and the [cart] array -- and two
    module-level API clients, [fetchProductByCode] and [postPurchase].

    Modelling decisions, all taken from the source:
    - The cart array holds references to line objects.  [handleAdd] mutates
      the object returned by [cart.find] in place and then stores a spread
      copy of the array, so the merge is only visible through the sharing
      of that object between the old and the new array.  Line objects
      therefore live in an explicit object store ([heap]) and arrays are
      lists of references into it.  Arrays themselves are never mutated by
      the source and are plain immutable lists.
    - The three staged fields only ever receive [e.target.value] or the
      literal empty string, so they are strings.  A string is its sequence
      of UTF-8 bytes.
    - JavaScript numbers are mathematical integers plus [NaN].  This is
      exact for IEEE doubles as long as every value stays inside the
      contiguous integer range (below 2^53 in magnitude); rounding of longer
      digit strings and infinities are outside the model.
    - One event handler runs to completion and React re-renders before the
      next event is delivered, so a handler is a function from the state of
      one render to the state of the next. *)

From Stdlib Require Import ZArith Ascii.
From stdpp Require Import base numbers list strings pretty.

Local Open Scope Z_scope.

(** ** JavaScript numbers *)

Inductive number : Type :=
  | NaN
  | Int (z : Z).

Definition nadd (a b : number) : number :=
  match a, b with
  | Int x, Int y => Int (x + y)
  | _, _ => NaN
  end.

Definition nmul (a b : number) : number :=
  match a, b with
  | Int x, Int y => Int (x * y)
  | _, _ => NaN
  end.

#[global] Instance number_eq_dec : EqDecision number.
Proof. solve_decision. Defined.

(** ** Strings: truthiness and [parseInt(s, 10)] *)

(** [!s] on a string is true exactly for the empty string. *)
Definition truthy (s : string) : bool :=
  match s with
  | EmptyString => false
  | String _ _ => true
  end.

Definition byte_of (a : ascii) : N := N_of_ascii a.

(** One-byte members of StrWhiteSpaceChar: TAB, LF, VT, FF, CR, SP. *)
Definition is_white1 (a : ascii) : bool :=
  let n := byte_of a in
  ((9 <=? n) && (n <=? 13) || (n =? 32))%N.

(** Skip leading StrWhiteSpaceChar.  Beyond the six ASCII characters these
    are U+00A0 (C2 A0), U+1680 (E1 9A 80), U+2000..U+200A (E2 80 80..8A),
    U+2028, U+2029, U+202F (E2 80 A8, A9, AF), U+205F (E2 81 9F),
    U+3000 (E3 80 80) and U+FEFF (EF BB BF). *)
Fixpoint skip_white (s : string) : string :=
  match s with
  | String a r1 =>
      if is_white1 a then skip_white r1
      else
        match r1 with
        | String b r2 =>
            if ((byte_of a =? 194) && (byte_of b =? 160))%N then skip_white r2
            else
              match r2 with
              | String c r3 =>
                  let x := byte_of a in
                  let y := byte_of b in
                  let z := byte_of c in
                  if ((x =? 225) && (y =? 154) && (z =? 128)
                      || (x =? 226) && (y =? 128)
                         && ((128 <=? z) && (z <=? 138)
                             || (z =? 168) || (z =? 169) || (z =? 175))
                      || (x =? 226) && (y =? 129) && (z =? 159)
                      || (x =? 227) && (y =? 128) && (z =? 128)
                      || (x =? 239) && (y =? 187) && (z =? 191))%N
                  then skip_white r3
                  else s
              | EmptyString => s
              end
        | EmptyString => s
        end
  | EmptyString => s
  end.

Definition digit_val (a : ascii) : option Z :=
  let n := byte_of a in
  if ((48 <=? n) && (n <=? 57))%N then Some (Z.of_N n - 48) else None.

(** The longest prefix of radix-10 digits, read as an integer; [acc] is
    [None] until the first digit has been seen. *)
Fixpoint digits (acc : option Z) (s : string) : option Z :=
  match s with
  | String a r =>
      match digit_val a with
      | Some d => digits (Some (10 * default 0 acc + d)) r
      | None => acc
      end
  | EmptyString => acc
  end.

(** [parseInt(s, 10)]: trim leading white space, take an optional sign,
    read the digit prefix; no digit at all gives [NaN].  With radix 10 no
    [0x] prefix is stripped. *)
Definition parseInt10 (s : string) : number :=
  let s1 := skip_white s in
  let '(sign, s2) :=
    match s1 with
    | String "-" r => (-1, r)
    | String "+" r => (1, r)
    | _ => (1, s1)
    end in
  match digits None s2 with
  | Some m => Int (sign * m)
  | None => NaN
  end.

(** ** Cart lines and the component state *)

Module Item.
(** The object literal [{ code, name, price: parseInt(price, 10), qty: 1 }].
    [qty] is only ever written as [1] and by [+= 1], so it is an integer. *)
Record t : Type := mk {
  code : string;
  name : string;
  price : number;
  qty : Z;
}.

#[global] Instance eq_dec : EqDecision t.
Proof. solve_decision. Defined.

(** [item.qty += 1] *)
Definition incr_qty (item : t) : t :=
  {| code := code item; name := name item; price := price item;
     qty := qty item + 1 |}.
End Item.

(** A reference to a line object: its index in the object store. *)
Abbreviation ref := nat.

(** The React state of [POSApp] together with the object store the [cart]
    array points into. *)
Record State : Type := mkState {
  code : string;
  name : string;
  price : string;
  cart : list ref;
  heap : list Item.t;
}.

(** [useState('')] three times and [useState([])]. *)
Definition init : State :=
  {| code := ""; name := ""; price := ""; cart := []; heap := [] |}.

(** The objects an array's elements denote, in array order. *)
Definition deref (h : list Item.t) (arr : list ref) : list Item.t :=
  omap (λ r, h !! r) arr.

(** What the list on the right of the page iterates over: [cart.map(...)]. *)
Definition lines (st : State) : list Item.t := deref (heap st) (cart st).

(** [const total = cart.reduce((sum, item) => sum + item.price * item.qty, 0)],
    evaluated by every render from that render's [cart]. *)
Definition total (st : State) : number :=
  fold_left (λ sum item, nadd sum (nmul (Item.price item) (Int (Item.qty item))))
            (lines st) (Int 0).

(** [arr.find(pred)]: the first element whose object satisfies [pred], or
    [undefined]. *)
Fixpoint find (h : list Item.t) (pred : Item.t → bool) (arr : list ref)
  : option ref :=
  match arr with
  | [] => None
  | r :: arr' =>
      match h !! r with
      | Some item => if pred item then Some r else find h pred arr'
      | None => find h pred arr'
      end
  end.

(** The test of the early return in [handleAdd]: [!name || !price]. *)
Definition guarded (st : State) : bool :=
  negb (truthy (name st)) || negb (truthy (price st)).

Definition handleAdd (st : State) : State :=
  if guarded st then st
  else
    match find (heap st) (λ item, String.eqb (Item.code item) (code st)) (cart st) with
    | Some existing =>
        (* existing.qty += 1; setCart([...cart]); *)
        {| code := ""; name := ""; price := "";
           cart := cart st;
           heap := alter Item.incr_qty existing (heap st) |}
    | None =>
        (* setCart([...cart, { code, name, price: parseInt(price, 10), qty: 1 }]); *)
        let item :=
          {| Item.code := code st; Item.name := name st;
             Item.price := parseInt10 (price st); Item.qty := 1 |} in
        {| code := ""; name := ""; price := "";
           cart := cart st ++ [length (heap st)];
           heap := heap st ++ [item] |}
    end.

(** ** Operator events

    The handlers the JSX attaches: [onChange] on the three inputs and
    [onClick={handleAdd}] on the add button.  The two other buttons carry
    no handler. *)

Inductive event : Type :=
  | ChangeCode (value : string)
  | ChangeName (value : string)
  | ChangePrice (value : string)
  | ClickAdd.

Definition setCode (v : string) (st : State) : State :=
  {| code := v; name := name st; price := price st;
     cart := cart st; heap := heap st |}.

Definition setName (v : string) (st : State) : State :=
  {| code := code st; name := v; price := price st;
     cart := cart st; heap := heap st |}.

Definition setPrice (v : string) (st : State) : State :=
  {| code := code st; name := name st; price := v;
     cart := cart st; heap := heap st |}.

Definition step (st : State) (e : event) : State :=
  match e with
  | ChangeCode v => setCode v st
  | ChangeName v => setName v st
  | ChangePrice v => setPrice v st
  | ClickAdd => handleAdd st
  end.

Definition run (evs : list event) (st : State) : State :=
  fold_left step evs st.

(** An add-to-cart call [addLine(code, name, price)]: the operator fills the
    three fields and presses the add button. *)
Module Call.
Record t : Type := mk {
  code : string;
  name : string;
  price : string;
}.

(** The call is not stopped by the guard of [handleAdd]. *)
Definition passes (k : t) : bool := truthy (name k) && truthy (price k).

Definition events (k : t) : list event :=
  [ChangeCode (code k); ChangeName (name k); ChangePrice (price k); ClickAdd].
End Call.

Definition addLine (st : State) (k : Call.t) : State :=
  run (Call.events k) st.

Definition addLines (ks : list Call.t) (st : State) : State :=
  fold_left addLine ks st.

(** ** Well-formed stores

    Every element of the cart array is a live object and no object occurs
    at two positions; [inv] adds that no two lines carry the same code.
    Both hold initially and are kept by every event ([inv_run]). *)

Definition wf (st : State) : Prop :=
  NoDup (cart st) ∧ Forall (λ r, (r < length (heap st))%nat) (cart st).

Definition codes (l : list Item.t) : list string := Item.code <$> l.

Definition inv (st : State) : Prop :=
  wf st ∧ NoDup (codes (lines st)).

(** ** The cart as the page shows it

    [handleAdd] seen on the list of lines: [merge_into] is the effect of
    [find] followed by [existing.qty += 1], [line_of] the object literal of
    the other branch.  [lines_addLine] proves that the store-level code
    computes exactly this on every well-formed store. *)

Fixpoint merge_into (c : string) (l : list Item.t) : option (list Item.t) :=
  match l with
  | [] => None
  | item :: l' =>
      if String.eqb (Item.code item) c then Some (Item.incr_qty item :: l')
      else (item ::.) <$> merge_into c l'
  end.

Definition line_of (k : Call.t) : Item.t :=
  {| Item.code := Call.code k; Item.name := Call.name k;
     Item.price := parseInt10 (Call.price k); Item.qty := 1 |}.

(** The call the staged fields amount to when the add button is pressed. *)
Definition staged (st : State) : Call.t :=
  {| Call.code := code st; Call.name := name st; Call.price := price st |}.

Definition add_view (l : list Item.t) (k : Call.t) : list Item.t :=
  if Call.passes k then
    match merge_into (Call.code k) l with
    | Some l' => l'
    | None => l ++ [line_of k]
    end
  else l.

(** ** Specification-side notions *)


(** The distinct elements of a list in order of first occurrence. *)
Fixpoint first_seen (l : list string) : list string :=
  match l with
  | [] => []
  | c :: l' => c :: filter (λ d, d ≠ c) (first_seen l')
  end.

(** The lines of a cart whose code is [c]. *)
Definition with_code (c : string) (l : list Item.t) : list Item.t :=
  filter (λ item, Item.code item = c) l.

(** The codes of the calls that pass the guard, in call order. *)
Definition added_codes (ks : list Call.t) : list string :=
  Call.code <$> filter (λ k, Call.passes k = true) ks.

(** The calls of a sequence that pass the guard and carry code [c]. *)
Definition adds_of (c : string) (ks : list Call.t) : list Call.t :=
  filter (λ k, Call.passes k = true ∧ Call.code k = c) ks.

(** The line the first of the calls [fs] creates, with the quantity all of
    them together give it. *)
Definition merged (c : string) (fs : list Call.t) : list Item.t :=
  match fs with
  | [] => []
  | f :: _ =>
      [ {| Item.code := c; Item.name := Call.name f;
           Item.price := parseInt10 (Call.price f);
           Item.qty := Z.of_nat (length fs) |} ]
  end.

(** The staged product that the written contract of [addLine] rejects: an
    empty name, or a price that is absent, not numeric, or negative. *)
Definition rejected_by_contract (st : State) : Prop :=
  name st = "" ∨ price st = "" ∨ parseInt10 (price st) = NaN
  ∨ ∃ z, parseInt10 (price st) = Int z ∧ z < 0.

(** Modelled from the spec: the source has no [clear] operation ([setCart]
    is called from [handleAdd] only); the contract says that [clear] removes
    all lines.  It is the state update [setCart([])]. *)
Definition clear (st : State) : State :=
  {| code := code st; name := name st; price := price st;
     cart := []; heap := heap st |}.

(** ** API clients *)

#[local] Set Warnings "-register-all".
Inductive JSON : Type :=
  | JNull
  | JBool (b : bool)
  | JNumber (z : Z)
  | JString (s : string)
  | JArray (elements : list JSON)
  | JObject (members : list (string * JSON)).

(** Property access [value.key] on a parsed body. *)
Fixpoint member (key : string) (members : list (string * JSON)) : option JSON :=
  match members with
  | [] => None
  | (k, v) :: rest => if String.eqb k key then Some v else member key rest
  end.

Definition get (key : string) (value : JSON) : option JSON :=
  match value with
  | JObject members => member key members
  | _ => None
  end.

Inductive Method : Type := GET | POST.

Inductive Url : Type :=
  | UrlOf (path base : string) (searchParams : list (string * string))
  | UrlText (text : string).

Record Request : Type := mkRequest {
  url : Url;
  method : Method;
  headers : list (string * string);
  body : option JSON;
  cache : option string;
}.

(** A response: its status and what [res.json()] yields, [None] when the
    body is not JSON text. *)
Record Response : Type := mkResponse {
  status : N;
  parsed : option JSON;
}.

(** [res.ok]: the status is in the range 200 to 299. *)
Definition ok (res : Response) : bool :=
  ((200 <=? status res) && (status res <=? 299))%N.

Inductive FetchOutcome : Type :=
  | Responded (res : Response)
  | Unreachable.

Inductive Exn : Type :=
  | Error (message : string)
  | TypeError
  | SyntaxError.

Inductive Completion (A : Type) : Type :=
  | Return (a : A)
  | Throw (e : Exn).
Arguments Return {A} a.
Arguments Throw {A} e.

(** An asynchronous function, run to completion against the component
    state: it settles with a value or an exception and leaves a state.
    Operator events delivered while a request is in flight are steps of
    their own ([step]) and not part of such a run. *)
Definition Async (A : Type) : Type := State → Completion A * State.

Definition ret {A} (a : A) : Async A := λ st, (Return a, st).

Definition throw {A} (e : Exn) : Async A := λ st, (Throw e, st).

Definition bind {A B} (m : Async A) (k : A → Async B) : Async B :=
  λ st,
    match m st with
    | (Return a, st') => k a st'
    | (Throw e, st') => (Throw e, st')
    end.

Notation "x <- m ;; k" := (bind m (λ x, k))
  (at level 100, m at next level, right associativity).

Section Api.
(** The environment: the configured base URL, which bases the URL parser
    accepts, and what the network answers to a request. *)
Variable NEXT_PUBLIC_API_BASE_URL : option string.
Variable url_parses : string → bool.
Variable net : Request → FetchOutcome.

(** [process.env.NEXT_PUBLIC_API_BASE_URL || "http://localhost:8000"] *)
Definition API_BASE : string :=
  match NEXT_PUBLIC_API_BASE_URL with
  | Some s => if truthy s then s else "http://localhost:8000"
  | None => "http://localhost:8000"
  end.

(** [new URL(path, base)] throws a [TypeError] on a base it cannot parse. *)
Definition newURL (path base : string) : Async Url :=
  if url_parses base then ret (UrlOf path base []) else throw TypeError.

(** [url.searchParams.set(key, value)] on a URL without parameters. *)
Definition searchParams_set (key value : string) (u : Url) : Url :=
  match u with
  | UrlOf path base _ => UrlOf path base [(key, value)]
  | UrlText _ => u
  end.

(** [await fetch(...)]: rejects with a [TypeError] when there is no
    response at all. *)
Definition fetch (req : Request) : Async Response :=
  match net req with
  | Responded res => ret res
  | Unreachable => throw TypeError
  end.

(** [await res.json()] *)
Definition json (res : Response) : Async JSON :=
  match parsed res with
  | Some data => ret data
  | None => throw SyntaxError
  end.

Definition lookup_request (u : Url) : Request :=
  {| url := u; method := GET; headers := []; body := None;
     cache := Some "no-store" |}.

Definition fetchProductByCode (code : string) : Async JSON :=
  u <- newURL "/product" API_BASE ;;
  res <- fetch (lookup_request (searchParams_set "code" code u)) ;;
  if negb (ok res)
  then throw (Error ("商品マスタ照会に失敗しました (" +:+ pretty (status res) +:+ ")"))
  else
    data <- json res ;;
    ret data.

Definition purchase_request (payload : JSON) : Request :=
  {| url := UrlText (API_BASE +:+ "/purchase"); method := POST;
     headers := [("Content-Type", "application/json")];
     body := Some payload; cache := None |}.

Definition postPurchase (payload : JSON) : Async JSON :=
  res <- fetch (purchase_request payload) ;;
  if negb (ok res)
  then throw (Error ("購入APIに失敗しました (" +:+ pretty (status res) +:+ ")"))
  else json res.
End Api.

(** A purchase attempt failed: [postPurchase] threw, or it returned a body
    whose [success] flag is [false]. *)
Definition purchase_failed (result : Completion JSON) : Prop :=
  match result with
  | Throw _ => True
  | Return data => get "success" data = Some (JBool false)
  end.

(** ** Sample sessions *)

(** The cart after the operator has added tea once. *)
Definition tea_cart : State :=
  addLines [ {| Call.code := "A"; Call.name := "Tea"; Call.price := "150" |} ] init.

(** Tea twice, then milk. *)
Definition tea_milk_cart : State :=
  addLines [ {| Call.code := "A"; Call.name := "Tea"; Call.price := "150" |};
             {| Call.code := "A"; Call.name := "Tea"; Call.price := "150" |};
             {| Call.code := "B"; Call.name := "Milk"; Call.price := "200" |} ]
           init.

(** The purchase request for the tea cart, in the shape the header comment
    of the source documents. *)
Definition tea_payload : JSON :=
  JObject [ ("emp_cd", JString "E001"); ("store_cd", JString "S01");
            ("pos_no", JString "001");
            ("items", JArray [ JObject [ ("prd_id", JNumber 1);
                                         ("prd_code", JString "A");
                                         ("prd_name", JString "Tea");
                                         ("prd_price", JNumber 150);
                                         ("qty", JNumber 1) ] ]) ].

(** A backend that answers every request with status 500 and no JSON. *)
Definition net_500 : Request → FetchOutcome :=
  λ _, Responded {| status := 500; parsed := None |}.

(** A backend that answers 200 and rejects the purchase. *)
Definition net_rejecting : Request → FetchOutcome :=
  λ _, Responded {| status := 200;
                    parsed := Some (JObject [ ("success", JBool false);
                                              ("total_amount", JNumber 0) ]) |}.

(** A backend that answers 200 with the body [null]. *)
Definition net_null : Request → FetchOutcome :=
  λ _, Responded {| status := 200; parsed := Some JNull |}.

(** A backend that answers 404. *)
Definition net_404 : Request → FetchOutcome :=
  λ _, Responded {| status := 404; parsed := Some JNull |}.

(** ** Operator sessions and the rendered list *)

(** The add-to-cart calls a sequence of operator events amounts to: what was
    staged at each press of the add button that the guard let through.  The
    staged fields follow the events alone -- an edit replaces one field, a
    press that passes clears all three -- so the cart is not needed to
    compute them. *)
Fixpoint clicks (evs : list event) (s : Call.t) : list Call.t :=
  match evs with
  | [] => []
  | ChangeCode v :: evs' => clicks evs' (Call.mk v (Call.name s) (Call.price s))
  | ChangeName v :: evs' => clicks evs' (Call.mk (Call.code s) v (Call.price s))
  | ChangePrice v :: evs' => clicks evs' (Call.mk (Call.code s) (Call.name s) v)
  | ClickAdd :: evs' =>
      if Call.passes s then s :: clicks evs' (Call.mk "" "" "")
      else clicks evs' s
  end.

(** A later cart keeps an earlier one: every line is still at its position
    with its code, name and price, and with at least its qty. *)
Definition keeps (l l' : list Item.t) : Prop :=
  ∀ (i : nat) (item : Item.t),
    l !! i = Some item →
    ∃ item' : Item.t,
      l' !! i = Some item'
      ∧ Item.code item' = Item.code item
      ∧ Item.name item' = Item.name item
      ∧ Item.price item' = Item.price item
      ∧ Item.qty item ≤ Item.qty item'.

(** The number of units in a cart: the sum of the qty of its lines. *)
Fixpoint units (l : list Item.t) : Z :=
  match l with
  | [] => 0
  | item :: l' => Item.qty item + units l'
  end.


(** The text React renders for a number child: its decimal numeral, or
    [NaN]. *)
Definition number_text (n : number) : string :=
  match n with
  | Int z => pretty z
  | NaN => "NaN"
  end.

Module ListItem.
(** The four spans of one list item:
    [{item.name}], [{item.qty}], [{item.price}円], [{item.price * item.qty}円],
    as the values their expressions have. *)
Record t : Type := mk {
  name : string;
  qty : Z;
  price : number;
  amount : number;
}.

(** The text of the four spans. *)
Definition texts (r : t) : list string :=
  [ name r; number_text (Int (qty r)); number_text (price r) +:+ "円";
    number_text (amount r) +:+ "円" ].
End ListItem.

Definition row_of (item : Item.t) : ListItem.t :=
  {| ListItem.name := Item.name item; ListItem.qty := Item.qty item;
     ListItem.price := Item.price item;
     ListItem.amount := nmul (Item.price item) (Int (Item.qty item)) |}.

(** The purchase list of the page: the placeholder when [cart.length === 0],
    and one item per element of [cart.map(...)] otherwise. *)
Inductive ListView : Type :=
  | Placeholder (message : string)
  | Rows (rows : list ListItem.t).

Definition render_list (st : State) : ListView :=
  if (length (cart st) =? 0)%nat then Placeholder "リストは空です"
  else Rows (row_of <$> lines st).


(** A backend that does not answer. *)
Definition net_down : Request → FetchOutcome := λ _, Unreachable.

(** A backend that answers 200 with a product. *)
Definition net_product : Request → FetchOutcome :=
  λ _, Responded {| status := 200;
                    parsed := Some (JObject [ ("prd_id", JNumber 1);
                                              ("code", JString "A");
                                              ("name", JString "Tea");
                                              ("price", JNumber 150) ]) |}.

(** A backend that answers 200 with a body that is not JSON. *)
Definition net_garbled : Request → FetchOutcome :=
  λ _, Responded {| status := 200; parsed := None |}.


(** A short session on the tea cart: the operator stages tea again and
    presses add twice, then types a name only and presses once more. *)
Definition tea_session : list event :=
  [ ChangeCode "A"; ChangeName "Tea"; ChangePrice "150"; ClickAdd; ClickAdd;
    ChangeName "x"; ClickAdd ].

(** * Proofs *)

(** ** Number arithmetic *)





(** ** Truthiness *)

Lemma truthy_false (s : string) : truthy s = false ↔ s = "".
Proof. destruct s; simpl; split; congruence. Qed.

Lemma truthy_true (s : string) : truthy s = true ↔ s ≠ "".
Proof. destruct s; simpl; split; congruence. Qed.

Lemma guarded_true (st : State) :
  guarded st = true ↔ name st = "" ∨ price st = "".
Proof.
  unfold guarded. rewrite orb_true_iff, !negb_true_iff, !truthy_false. tauto.
Qed.

(** ** The object store *)

Section Store.
Implicit Types (h : list Item.t) (arr : list ref) (r : ref).

Lemma deref_app h arr1 arr2 :
  deref h (arr1 ++ arr2) = deref h arr1 ++ deref h arr2.
Proof. apply omap_app. Qed.

Lemma deref_cons_Some h r arr item :
  h !! r = Some item → deref h (r :: arr) = item :: deref h arr.
Proof. intros Hr. unfold deref. simpl. by rewrite Hr. Qed.

Lemma deref_cons_None h r arr :
  h !! r = None → deref h (r :: arr) = deref h arr.
Proof. intros Hr. unfold deref. simpl. by rewrite Hr. Qed.

(** Allocation does not disturb the objects already there. *)
Lemma deref_alloc h arr item :
  Forall (λ r, (r < length h)%nat) arr →
  deref (h ++ [item]) arr = deref h arr.
Proof.
  induction 1 as [|r arr Hr _ IH]; [done|].
  destruct (lookup_lt_is_Some_2 h r Hr) as [it Hit].
  rewrite (deref_cons_Some h r arr it Hit).
  rewrite (deref_cons_Some (h ++ [item]) r arr it); [by rewrite IH|].
  by rewrite lookup_app_l.
Qed.

(** A write through a reference the array does not hold is not seen
    through the array. *)
Lemma deref_alter_notin h arr r (f : Item.t → Item.t) :
  r ∉ arr → deref (alter f r h) arr = deref h arr.
Proof.
  induction arr as [|r0 arr IH]; [done|].
  intros Hnotin. apply not_elem_of_cons in Hnotin as [Hne Hnotin].
  assert (alter f r h !! r0 = h !! r0) as Hsame
    by (by apply list_lookup_alter_ne).
  destruct (h !! r0) as [it|] eqn:Hit.
  - rewrite (deref_cons_Some _ _ _ it Hsame), (deref_cons_Some _ _ _ it Hit).
    by rewrite IH.
  - rewrite (deref_cons_None _ _ _ Hsame), (deref_cons_None _ _ _ Hit).
    by apply IH.
Qed.

(** [find] on the store is [merge_into] on the lines: when it finds an
    object, incrementing that object through the reference increments
    the first line with the code and nothing else. *)
Lemma find_Some_merge h arr c r :
  NoDup arr →
  Forall (λ r, (r < length h)%nat) arr →
  find h (λ item, String.eqb (Item.code item) c) arr = Some r →
  merge_into c (deref h arr) = Some (deref (alter Item.incr_qty r h) arr).
Proof.
  intros Hnd Hall. revert Hnd.
  induction Hall as [|r0 arr Hr0 Hall IH]; intros Hnd Hfind; [done|].
  apply NoDup_cons in Hnd as [Hnotin Hnd].
  destruct (lookup_lt_is_Some_2 h r0 Hr0) as [item Hitem].
  simpl in Hfind. rewrite Hitem in Hfind.
  rewrite (deref_cons_Some _ _ _ _ Hitem). cbn [merge_into].
  destruct (String.eqb (Item.code item) c) eqn:Hc.
  - injection Hfind as <-.
    rewrite (deref_cons_Some _ _ _ (Item.incr_qty item)).
    + by rewrite deref_alter_notin.
    + by rewrite list_lookup_alter_eq, Hitem.
  - rewrite (IH Hnd Hfind). cbn [fmap option_fmap option_map].
    rewrite (deref_cons_Some _ _ _ item); [done|].
    rewrite list_lookup_alter_ne; [done|].
    intros ->. apply Hnotin. clear -Hfind.
    induction arr as [|r1 arr IH]; [done|].
    simpl in Hfind. destruct (h !! r1) as [it|].
    + destruct (String.eqb (Item.code it) c).
      * injection Hfind as ->. left.
      * right. by apply IH.
    + right. by apply IH.
Qed.

Lemma find_None_merge h arr c :
  find h (λ item, String.eqb (Item.code item) c) arr = None →
  merge_into c (deref h arr) = None.
Proof.
  induction arr as [|r0 arr IH]; [done|].
  simpl. unfold deref in *. simpl.
  destruct (h !! r0) as [item|]; simpl; [|done].
  destruct (String.eqb (Item.code item) c); [done|].
  intros Hfind. by rewrite IH.
Qed.
End Store.

(** ** Lines of the cart under [merge_into] *)

Section Merge.
Implicit Types (l : list Item.t) (c : string) (item : Item.t).

Lemma merge_into_codes c l l' : merge_into c l = Some l' → codes l' = codes l.
Proof.
  revert l'. induction l as [|item l IH]; intros l'; [done|].
  cbn [merge_into]. destruct (String.eqb (Item.code item) c).
  - by intros [= <-].
  - destruct (merge_into c l) as [l0|]; [|done].
    intros [= <-]. unfold codes in *. cbn. f_equal. by apply IH.
Qed.

Lemma merge_into_None c l : merge_into c l = None ↔ c ∉ codes l.
Proof.
  induction l as [|item l IH]; cbn [merge_into].
  - split; [|done]. intros _. apply not_elem_of_nil.
  - unfold codes in *. cbn. rewrite not_elem_of_cons.
    destruct (String.eqb_spec (Item.code item) c) as [Heq|Hne].
    + split; [done|]. intros [Hc _]. by destruct Hc.
    + destruct (merge_into c l); cbn.
      * split; [done|]. intros [_ Hc]. by apply IH in Hc.
      * split; [|done]. intros _. split; [congruence|]. by apply IH.
Qed.

(** With distinct codes the merge is an update of the one line that has
    the code, at the position where it is. *)
Lemma merge_into_insert c l i item :
  NoDup (codes l) → l !! i = Some item → Item.code item = c →
  merge_into c l = Some (<[i := Item.incr_qty item]> l).
Proof.
  revert i. induction l as [|item0 l IH]; intros i Hnd Hi Hc; [done|].
  unfold codes in Hnd. cbn in Hnd. apply NoDup_cons in Hnd as [Hnotin Hnd].
  destruct i as [|i]; cbn in Hi; cbn [merge_into].
  - injection Hi as ->. by rewrite (proj2 (String.eqb_eq _ _) Hc).
  - destruct (String.eqb_spec (Item.code item0) c) as [Heq|Hne].
    + exfalso. apply Hnotin. rewrite Heq, <- Hc.
      apply list_elem_of_fmap. exists item. split; [done|].
      by apply list_elem_of_lookup_2 with i.
    + by rewrite (IH i Hnd Hi Hc).
Qed.

Lemma add_view_codes_NoDup l (k : Call.t) :
  NoDup (codes l) → NoDup (codes (add_view l k)).
Proof.
  intros Hnd. unfold add_view. destruct (Call.passes k); [|done].
  destruct (merge_into (Call.code k) l) as [l'|] eqn:Hm.
  - by rewrite (merge_into_codes _ _ _ Hm).
  - unfold codes. rewrite fmap_app. apply NoDup_app. split; [done|].
    split; [|apply NoDup_singleton].
    intros c Hc Hin. apply list_elem_of_singleton in Hin as ->.
    by apply merge_into_None in Hm.
Qed.
End Merge.

(** ** The store-level handler computes the list-level view *)

Lemma wf_init : wf init.
Proof. split; [apply NoDup_nil_2 | apply Forall_nil_2]. Qed.

Lemma wf_handleAdd (st : State) : wf st → wf (handleAdd st).
Proof.
  intros [Hnd Hall]. unfold handleAdd.
  destruct (guarded st); [done|].
  destruct (find _ _ _) as [r|]; split; cbn.
  - done.
  - by rewrite length_alter.
  - apply NoDup_app. split; [done|]. split; [|apply NoDup_singleton].
    intros r Hr Hin. apply list_elem_of_singleton in Hin as ->.
    rewrite Forall_forall in Hall. specialize (Hall _ Hr). cbn in Hall. lia.
  - rewrite length_app. cbn. apply Forall_app. split.
    + eapply Forall_impl; [exact Hall|]. cbn. lia.
    + apply Forall_singleton. lia.
Qed.

Lemma wf_step (st : State) (e : event) : wf st → wf (step st e).
Proof. destruct e; cbn; [done..|]. apply wf_handleAdd. Qed.

Lemma passes_staged (st : State) : Call.passes (staged st) = negb (guarded st).
Proof.
  unfold Call.passes, guarded, staged. cbn.
  by destruct (truthy (name st)), (truthy (price st)).
Qed.

Lemma lines_handleAdd (st : State) :
  wf st → lines (handleAdd st) = add_view (lines st) (staged st).
Proof.
  intros [Hnd Hall]. unfold handleAdd, add_view.
  rewrite passes_staged. destruct (guarded st); [done|]. cbn [negb].
  change (Call.code (staged st)) with (code st). unfold lines.
  destruct (find _ _ _) as [r|] eqn:Hfind.
  - by rewrite (find_Some_merge _ _ _ _ Hnd Hall Hfind).
  - rewrite (find_None_merge _ _ _ Hfind).
    cbn [cart heap]. rewrite deref_app, deref_alloc by done.
    f_equal. unfold deref. cbn. by rewrite lookup_app_r, Nat.sub_diag.
Qed.

Lemma addLine_handleAdd (st : State) (k : Call.t) :
  addLine st k
  = handleAdd {| code := Call.code k; name := Call.name k;
                 price := Call.price k; cart := cart st; heap := heap st |}.
Proof. reflexivity. Qed.

Lemma wf_addLine (st : State) (k : Call.t) : wf st → wf (addLine st k).
Proof. intros Hwf. rewrite addLine_handleAdd. by apply wf_handleAdd. Qed.

Lemma lines_addLine (st : State) (k : Call.t) :
  wf st → lines (addLine st k) = add_view (lines st) k.
Proof.
  intros Hwf. rewrite addLine_handleAdd, lines_handleAdd by done.
  by destruct k.
Qed.

Lemma wf_addLines (ks : list Call.t) (st : State) : wf st → wf (addLines ks st).
Proof.
  revert st. induction ks as [|k ks IH]; intros st Hwf; [done|].
  unfold addLines in *. cbn [fold_left]. apply IH. by apply wf_addLine.
Qed.

Lemma lines_addLines (ks : list Call.t) (st : State) :
  wf st → lines (addLines ks st) = fold_left add_view ks (lines st).
Proof.
  revert st. induction ks as [|k ks IH]; intros st Hwf; [done|].
  unfold addLines in *. cbn [fold_left].
  rewrite IH by (by apply wf_addLine). by rewrite lines_addLine.
Qed.

Lemma inv_init : inv init.
Proof. split; [apply wf_init | apply NoDup_nil_2]. Qed.

Lemma inv_step (st : State) (e : event) : inv st → inv (step st e).
Proof.
  intros [Hwf Hnd]. split; [by apply wf_step|].
  destruct e; cbn [step]; [done..|].
  rewrite lines_handleAdd by done. by apply add_view_codes_NoDup.
Qed.

(** Every state the operator can reach satisfies the invariant. *)
Lemma inv_run (evs : list event) (st : State) : inv st → inv (run evs st).
Proof.
  revert st. induction evs as [|e evs IH]; intros st Hinv; [done|].
  unfold run in *. cbn [fold_left]. apply IH. by apply inv_step.
Qed.

Lemma inv_addLines (ks : list Call.t) (st : State) : inv st → inv (addLines ks st).
Proof.
  revert st. induction ks as [|k ks IH]; intros st Hinv; [done|].
  unfold addLines in *. cbn [fold_left]. apply IH. by apply inv_run.
Qed.

(** ** Sequences of calls, on the list-level view *)

Section Sequences.
Implicit Types (l : list Item.t) (c : string) (k : Call.t) (ks : list Call.t).

Lemma codes_app l1 l2 : codes (l1 ++ l2) = codes l1 ++ codes l2.
Proof. apply fmap_app. Qed.

Lemma with_code_notin c l : c ∉ codes l → with_code c l = [].
Proof.
  induction l as [|item l IH]; [done|].
  unfold codes, with_code in *. rewrite fmap_cons, not_elem_of_cons.
  intros [Hne Hnotin]. rewrite filter_cons_False by congruence. by apply IH.
Qed.

Lemma with_code_NoDup c l item rest :
  NoDup (codes l) → with_code c l = item :: rest → rest = [].
Proof.
  induction l as [|item0 l IH]; [done|].
  unfold codes, with_code in *. rewrite fmap_cons, NoDup_cons.
  intros [Hnotin Hnd].
  rewrite filter_cons. destruct (decide (Item.code item0 = c)) as [Heq|Hne].
  - intros [= _ <-]. apply with_code_notin. by rewrite <- Heq.
  - by apply IH.
Qed.

Lemma merge_into_with_code_ne c c' l l' :
  merge_into c' l = Some l' → c ≠ c' → with_code c l' = with_code c l.
Proof.
  intros Hm Hne. revert l' Hm.
  induction l as [|item l IH]; intros l'; [done|].
  cbn [merge_into]. destruct (String.eqb_spec (Item.code item) c') as [Heq|Hne'].
  - intros [= <-]. unfold with_code.
    rewrite !filter_cons_False; [done| |]; cbn; congruence.
  - destruct (merge_into c' l) as [l0|]; [|done].
    intros [= <-]. unfold with_code in *.
    rewrite !filter_cons, (IH l0) by done. done.
Qed.

Lemma merge_into_with_code c l l' :
  merge_into c l = Some l' →
  ∃ item rest, with_code c l = item :: rest
               ∧ with_code c l' = Item.incr_qty item :: rest.
Proof.
  revert l'. induction l as [|item l IH]; intros l'; [done|].
  cbn [merge_into]. destruct (String.eqb_spec (Item.code item) c) as [Heq|Hne].
  - intros [= <-]. exists item, (with_code c l). unfold with_code.
    by rewrite !filter_cons_True.
  - destruct (merge_into c l) as [l0|]; [|done].
    intros [= <-]. destruct (IH l0 eq_refl) as (it & rest & H1 & H2).
    exists it, rest. unfold with_code in *.
    by rewrite !filter_cons_False.
Qed.

(** What one call does to the lines of code [c]. *)
Lemma with_code_add_view c l k :
  with_code c (add_view l k)
  = if decide (Call.passes k = true ∧ Call.code k = c) then
      match with_code c l with
      | [] => [line_of k]
      | item :: rest => Item.incr_qty item :: rest
      end
    else with_code c l.
Proof.
  unfold add_view. destruct (Call.passes k) eqn:Hp.
  - destruct (merge_into (Call.code k) l) as [l'|] eqn:Hm.
    + destruct (decide (_ ∧ _)) as [[_ Hc]|Hno].
      * subst c. destruct (merge_into_with_code _ _ _ Hm) as (it & rest & -> & ->).
        done.
      * apply (merge_into_with_code_ne c) in Hm; [done|]. naive_solver.
    + apply merge_into_None in Hm. unfold with_code at 1.
      rewrite filter_app. fold (with_code c l).
      destruct (decide (_ ∧ _)) as [[_ Hc]|Hno].
      * subst c. rewrite (with_code_notin _ _ Hm). by rewrite filter_cons_True.
      * rewrite filter_cons_False, filter_nil, app_nil_r; [done|].
        cbn. naive_solver.
  - destruct (decide (_ ∧ _)) as [[Hp' _]|Hno]; [congruence|done].
Qed.

(** The lines of code [c] after a whole sequence of calls: the line that
    was there with as many units more as calls passed, or else the line
    the first passing call created. *)
Lemma with_code_fold c ks l :
  NoDup (codes l) →
  with_code c (fold_left add_view ks l)
  = match with_code c l with
    | [] => merged c (adds_of c ks)
    | item :: _ =>
        [ {| Item.code := Item.code item; Item.name := Item.name item;
             Item.price := Item.price item;
             Item.qty := Item.qty item + Z.of_nat (length (adds_of c ks)) |} ]
    end.
Proof.
  revert l. induction ks as [|k ks IH]; intros l Hnd.
  - cbn [fold_left]. unfold adds_of. rewrite filter_nil. cbn [merged length].
    destruct (with_code c l) as [|item rest] eqn:Hl; [done|].
    rewrite (with_code_NoDup _ _ _ _ Hnd Hl). destruct item; cbn.
    do 2 f_equal. lia.
  - cbn [fold_left]. rewrite IH by (by apply add_view_codes_NoDup).
    rewrite with_code_add_view. unfold adds_of. rewrite filter_cons.
    destruct (decide (_ ∧ _)) as [[Hp Hc]|Hno]; [|done].
    fold (adds_of c ks).
    destruct (with_code c l) as [|item rest]; cbn.
    + rewrite Hc. do 2 f_equal. lia.
    + do 2 f_equal. lia.
Qed.

Lemma first_seen_filter_notin (seen : list string) c (l : list string) :
  c ∈ seen →
  filter (λ d, d ∉ seen) (filter (λ d, d ≠ c) l) = filter (λ d, d ∉ seen) l.
Proof.
  intros Hc. rewrite list_filter_filter. apply list_filter_iff.
  intros d. split; [tauto|]. intros Hd. split; [done|]. by intros ->.
Qed.

Lemma first_seen_filter_snoc (seen : list string) c (l : list string) :
  filter (λ d, d ∉ seen ++ [c]) l
  = filter (λ d, d ∉ seen) (filter (λ d, d ≠ c) l).
Proof.
  rewrite list_filter_filter. apply list_filter_iff.
  intros d. rewrite elem_of_app, list_elem_of_singleton. tauto.
Qed.

(** The codes of the cart after a sequence of calls: those that were there,
    then the new ones in the order of their first passing call. *)
Lemma codes_fold ks l :
  codes (fold_left add_view ks l)
  = codes l ++ filter (λ c, c ∉ codes l) (first_seen (added_codes ks)).
Proof.
  revert l. induction ks as [|k ks IH]; intros l.
  - cbn. by rewrite app_nil_r.
  - cbn [fold_left]. rewrite IH. unfold added_codes, add_view.
    rewrite filter_cons. destruct (Call.passes k) eqn:Hp.
    + rewrite decide_True by done. cbn [fmap list_fmap first_seen].
      fold (added_codes ks).
      destruct (merge_into (Call.code k) l) as [l'|] eqn:Hm.
      * rewrite (merge_into_codes _ _ _ Hm).
        assert (Call.code k ∈ codes l) as Hin.
        { destruct (decide (Call.code k ∈ codes l)) as [|Hnotin]; [done|].
          apply merge_into_None in Hnotin. congruence. }
        rewrite filter_cons_False by tauto.
        by rewrite first_seen_filter_notin.
      * apply merge_into_None in Hm.
        rewrite filter_cons_True by done.
        rewrite codes_app. change (codes [line_of k]) with [Call.code k].
        rewrite <- app_assoc. cbn [app]. do 2 f_equal.
        apply first_seen_filter_snoc.
    + by rewrite decide_False by congruence.
Qed.
End Sequences.

(** ** One call, on a well-formed store *)

Lemma addLine_new (st : State) (k : Call.t) :
  wf st → Call.passes k = true → Call.code k ∉ codes (lines st) →
  lines (addLine st k) = lines st ++ [line_of k].
Proof.
  intros Hwf Hp Hnotin. rewrite lines_addLine by done.
  unfold add_view. rewrite Hp.
  by rewrite (proj2 (merge_into_None _ _) Hnotin).
Qed.

Lemma addLine_merge (st : State) (k : Call.t) (i : nat) (item : Item.t) :
  inv st → Call.passes k = true →
  lines st !! i = Some item → Item.code item = Call.code k →
  lines (addLine st k) = <[i := Item.incr_qty item]> (lines st).
Proof.
  intros [Hwf Hnd] Hp Hi Hc. rewrite lines_addLine by done.
  unfold add_view. rewrite Hp.
  by rewrite (merge_into_insert _ _ _ _ Hnd Hi Hc).
Qed.

Lemma filter_notin_nil (l : list string) : filter (λ c, c ∉ []) l = l.
Proof.
  induction l as [|c l IH]; [done|].
  rewrite filter_cons_True by apply not_elem_of_nil. by rewrite IH.
Qed.

(** ** The model, evaluated *)

Example parseInt10_samples :
  parseInt10 "150" = Int 150 ∧ parseInt10 " -150" = Int (-150)
  ∧ parseInt10 "12abc" = Int 12 ∧ parseInt10 "abc" = NaN
  ∧ parseInt10 "-" = NaN ∧ parseInt10 "" = NaN.
Proof. repeat split. Qed.

(** The scenario of the specification: tea, tea again, milk. *)
Example scenario :
  lines tea_cart = [Item.mk "A" "Tea" (Int 150) 1]
  ∧ total tea_cart = Int 150
  ∧ lines tea_milk_cart
    = [Item.mk "A" "Tea" (Int 150) 2; Item.mk "B" "Milk" (Int 200) 1]
  ∧ total tea_milk_cart = Int 500
  ∧ total (clear tea_milk_cart) = Int 0.
Proof. repeat split. Qed.

(** The merge writes to the object, not to an array: the array of the
    previous render, read after the merge, shows the new qty as well. *)
Example merge_is_in_place :
  deref (heap (addLine tea_cart (Call.mk "A" "Tea" "150"))) (cart tea_cart)
  = [Item.mk "A" "Tea" (Int 150) 2].
Proof. reflexivity. Qed.

(** An array that held one object at two positions would show two lines and
    one merge would raise both; [wf] excludes such stores, and [wf_handleAdd]
    shows that the handler never builds one. *)
Example one_object_twice :
  lines (handleAdd (mkState "A" "Tea" "150" [0%nat; 0%nat]
                            [Item.mk "A" "Tea" (Int 150) 1]))
  = [Item.mk "A" "Tea" (Int 150) 2; Item.mk "A" "Tea" (Int 150) 2].
Proof. reflexivity. Qed.

(** * The claims *)

(** C1 (merge invariant).  After any sequence of add-to-cart calls on the
    empty cart and for any code [c], let [n] be the number of calls that
    carried [c] and passed the guard.  If [n] is zero the cart has no line
    with code [c]; otherwise it has exactly one, and its qty is [n].  In
    particular, when every call of the sequence carries [c], that one line
    counts the calls that were not stopped by the guard.  Moreover no two
    lines of the resulting cart share a code, whatever the calls were. *)
Theorem merge_invariant (ks : list Call.t) (c : string) :
  Item.qty <$> with_code c (lines (addLines ks init))
  = match length (adds_of c ks) with
    | O => []
    | S _ => [Z.of_nat (length (adds_of c ks))]
    end
  ∧ NoDup (codes (lines (addLines ks init))).
Proof.
  split.
  - rewrite lines_addLines by apply wf_init.
    change (lines init) with (@nil Item.t).
    rewrite with_code_fold by apply NoDup_nil_2.
    change (with_code c []) with (@nil Item.t). cbn match.
    by destruct (adds_of c ks).
  - apply (inv_addLines ks init inv_init).
Qed.


(** C3, as the contract words it, fails: a staged price that is a negative
    number, or that is no number at all, is not stopped by the guard.  With
    name "Tea" and price "-150", and likewise with price "abc", the staged
    product is one the contract rejects, yet pressing the add button on the
    empty cart leaves a cart of one line, and the subtotal changes. *)
Lemma contract_guard_counterexample :
  rejected_by_contract (mkState "4901" "Tea" "-150" [] [])
  ∧ lines (mkState "4901" "Tea" "-150" [] []) = []
  ∧ total (mkState "4901" "Tea" "-150" [] []) = Int 0
  ∧ lines (handleAdd (mkState "4901" "Tea" "-150" [] []))
    = [ {| Item.code := "4901"; Item.name := "Tea";
           Item.price := Int (-150); Item.qty := 1 |} ]
  ∧ total (handleAdd (mkState "4901" "Tea" "-150" [] [])) = Int (-150)
  ∧ rejected_by_contract (mkState "4901" "Tea" "abc" [] [])
  ∧ lines (handleAdd (mkState "4901" "Tea" "abc" [] []))
    = [ {| Item.code := "4901"; Item.name := "Tea";
           Item.price := NaN; Item.qty := 1 |} ]
  ∧ total (handleAdd (mkState "4901" "Tea" "abc" [] [])) = NaN.
Proof.
  repeat split; try reflexivity.
  - right. right. right. exists (-150). split; [reflexivity | lia].
  - right. right. left. reflexivity.
Qed.

(** C3, amended (guard no-op).  An add whose staged name is the empty
    string, or whose staged price is the empty string, returns at the
    guard: the whole state is what it was, so the number of lines, the lines
    themselves and the subtotal are unchanged; the handler is a total
    function and raises nothing. *)
Theorem guard_noop (st : State) :
  name st = "" ∨ price st = "" →
  handleAdd st = st
  ∧ length (lines (handleAdd st)) = length (lines st)
  ∧ lines (handleAdd st) = lines st
  ∧ total (handleAdd st) = total st.
Proof.
  intros Hempty. apply guarded_true in Hempty.
  assert (handleAdd st = st) as ->; [|done].
  unfold handleAdd. by rewrite Hempty.
Qed.

Lemma guard_noop_witness :
  (name (mkState "A" "" "150" (cart tea_cart) (heap tea_cart)) = ""
   ∨ price (mkState "A" "" "150" (cart tea_cart) (heap tea_cart)) = "")
  ∧ lines (handleAdd (mkState "A" "" "150" (cart tea_cart) (heap tea_cart)))
    = [ {| Item.code := "A"; Item.name := "Tea";
           Item.price := Int 150; Item.qty := 1 |} ].
Proof.
  split; [left; reflexivity|].
  rewrite (proj1 (proj2 (proj2
    (guard_noop (mkState "A" "" "150" (cart tea_cart) (heap tea_cart))
                (or_introl eq_refl))))).
  reflexivity.
Defined.

(** C4 (first write wins on merge).  In a cart that has a line with code
    [c], an add-to-cart call for [c] that passes the guard, whatever name
    and price it carries, replaces that line by the same line with qty one
    higher -- same code, same name, same price -- and changes no other
    line.  Over a whole session this makes the one line of a code carry the
    name and the parsed price of the first passing call for that code, and
    as qty the number of such calls. *)
Theorem first_write_wins :
  (∀ (st : State) (k : Call.t) (i : nat) (item : Item.t),
     inv st → Call.passes k = true →
     lines st !! i = Some item → Item.code item = Call.code k →
     lines (addLine st k)
     = <[i := {| Item.code := Item.code item; Item.name := Item.name item;
                 Item.price := Item.price item;
                 Item.qty := Item.qty item + 1 |}]> (lines st))
  ∧ (∀ (ks : list Call.t) (c : string),
       with_code c (lines (addLines ks init)) = merged c (adds_of c ks)).
Proof.
  split.
  - intros st k i item Hinv Hp Hi Hc. by apply addLine_merge.
  - intros ks c. rewrite lines_addLines by apply wf_init.
    change (lines init) with (@nil Item.t).
    by rewrite with_code_fold by apply NoDup_nil_2.
Qed.

Lemma first_write_wins_witness :
  inv tea_cart
  ∧ Call.passes (Call.mk "A" "Green tea" "999") = true
  ∧ lines tea_cart !! 0%nat = Some (Item.mk "A" "Tea" (Int 150) 1)
  ∧ lines (addLine tea_cart (Call.mk "A" "Green tea" "999"))
    = [Item.mk "A" "Tea" (Int 150) 2].
Proof.
  assert (inv tea_cart) as Hinv by apply (inv_addLines _ _ inv_init).
  split; [exact Hinv|]. split; [reflexivity|]. split; [reflexivity|].
  exact (proj1 first_write_wins tea_cart (Call.mk "A" "Green tea" "999") 0%nat
           (Item.mk "A" "Tea" (Int 150) 1) Hinv eq_refl eq_refl eq_refl).
Defined.

(** C5 (order preservation).  After any sequence of add-to-cart calls on the
    empty cart the codes of the lines, read top to bottom, are the distinct
    codes of the passing calls in the order in which each was first added.
    A passing call with a code the cart does not have appends one line with
    qty 1 at the end and leaves the lines before it as they were; a passing
    call with a code the cart has keeps the number of lines and the code at
    every position. *)
Theorem order_preserved :
  (∀ ks : list Call.t,
     codes (lines (addLines ks init)) = first_seen (added_codes ks))
  ∧ (∀ (st : State) (k : Call.t),
       wf st → Call.passes k = true → Call.code k ∉ codes (lines st) →
       lines (addLine st k)
       = lines st ++ [ {| Item.code := Call.code k; Item.name := Call.name k;
                          Item.price := parseInt10 (Call.price k);
                          Item.qty := 1 |} ])
  ∧ (∀ (st : State) (k : Call.t),
       wf st → Call.code k ∈ codes (lines st) →
       codes (lines (addLine st k)) = codes (lines st)
       ∧ length (lines (addLine st k)) = length (lines st)).
Proof.
  split; [|split].
  - intros ks. rewrite lines_addLines by apply wf_init.
    change (lines init) with (@nil Item.t). rewrite codes_fold.
    change (codes []) with (@nil string). apply filter_notin_nil.
  - intros st k Hwf Hp Hnotin. by apply addLine_new.
  - intros st k Hwf Hin.
    assert (codes (lines (addLine st k)) = codes (lines st)) as Hcodes.
    { rewrite lines_addLine by done. unfold add_view.
      destruct (Call.passes k); [|done].
      destruct (merge_into (Call.code k) (lines st)) as [l'|] eqn:Hm.
      - by apply merge_into_codes in Hm.
      - by apply merge_into_None in Hm. }
    split; [done|]. unfold codes in Hcodes.
    by rewrite <- (length_fmap Item.code), Hcodes, length_fmap.
Qed.

Lemma order_preserved_witness :
  wf tea_milk_cart
  ∧ Call.passes (Call.mk "C" "Rice" "300") = true
  ∧ (Call.code (Call.mk "C" "Rice" "300") ∉ codes (lines tea_milk_cart))
  ∧ lines (addLine tea_milk_cart (Call.mk "C" "Rice" "300"))
    = [Item.mk "A" "Tea" (Int 150) 2; Item.mk "B" "Milk" (Int 200) 1;
       Item.mk "C" "Rice" (Int 300) 1]
  ∧ Call.code (Call.mk "A" "Tea" "150") ∈ codes (lines tea_milk_cart)
  ∧ codes (lines (addLine tea_milk_cart (Call.mk "A" "Tea" "150")))
    = ["A"; "B"].
Proof.
  assert (wf tea_milk_cart) as Hwf by apply (wf_addLines _ _ wf_init).
  assert (Call.code (Call.mk "C" "Rice" "300") ∉ codes (lines tea_milk_cart))
    as Hnew.
  { change (codes (lines tea_milk_cart)) with ["A"; "B"].
    intros Hin. repeat (apply elem_of_cons in Hin as [Hin|Hin]; [done|]).
    by apply elem_of_nil in Hin. }
  assert (Call.code (Call.mk "A" "Tea" "150") ∈ codes (lines tea_milk_cart))
    as Hold by (change (codes (lines tea_milk_cart)) with ["A"; "B"]; left).
  split; [exact Hwf|]. split; [reflexivity|]. split; [exact Hnew|].
  split; [|split; [exact Hold|]].
  - exact (proj1 (proj2 order_preserved) tea_milk_cart
             (Call.mk "C" "Rice" "300") Hwf eq_refl Hnew).
  - exact (proj1 (proj2 (proj2 order_preserved) tea_milk_cart
                    (Call.mk "A" "Tea" "150") Hwf Hold)).
Defined.


(** C10 (empty code is accepted).  The guard of the add handler reads the
    staged name and price and never the staged code.  So an add-to-cart call
    with the empty code and a non-empty name and price is carried out like
    any other: when no line has the empty code it appends a line whose code
    is the empty string, with qty 1; when a line has it, that line's qty
    goes up by one; either way the cart then has a line with the empty
    code. *)
Theorem empty_code_accepted (st : State) (n p : string) :
  inv st → n ≠ "" → p ≠ "" →
  (∀ c : string, guarded (setCode c st) = guarded st)
  ∧ ("" ∉ codes (lines st) →
     lines (addLine st (Call.mk "" n p))
     = lines st ++ [ {| Item.code := ""; Item.name := n;
                        Item.price := parseInt10 p; Item.qty := 1 |} ])
  ∧ (∀ (i : nat) (item : Item.t),
       lines st !! i = Some item → Item.code item = "" →
       lines (addLine st (Call.mk "" n p))
       = <[i := {| Item.code := ""; Item.name := Item.name item;
                   Item.price := Item.price item;
                   Item.qty := Item.qty item + 1 |}]> (lines st))
  ∧ "" ∈ codes (lines (addLine st (Call.mk "" n p))).
Proof.
  intros Hinv Hn Hp.
  assert (Call.passes (Call.mk "" n p) = true) as Hpass.
  { unfold Call.passes. cbn.
    by rewrite (proj2 (truthy_true n) Hn), (proj2 (truthy_true p) Hp). }
  assert ("" ∉ codes (lines st) →
          lines (addLine st (Call.mk "" n p))
          = lines st ++ [Item.mk "" n (parseInt10 p) 1]) as Hnew.
  { intros Hnotin. by apply (addLine_new st (Call.mk "" n p) (proj1 Hinv)). }
  assert (∀ i item, lines st !! i = Some item → Item.code item = "" →
          lines (addLine st (Call.mk "" n p))
          = <[i := Item.mk "" (Item.name item) (Item.price item)
                           (Item.qty item + 1)]> (lines st)) as Hold.
  { intros i item Hi Hc.
    rewrite (addLine_merge st (Call.mk "" n p) i item) by done.
    unfold Item.incr_qty. by rewrite Hc. }
  split; [done|]. split; [exact Hnew|]. split; [exact Hold|].
  destruct (decide ("" ∈ codes (lines st))) as [Hin|Hnotin].
  - apply list_elem_of_fmap in Hin as (item & Hc & Hin).
    apply list_elem_of_lookup in Hin as [i Hi].
    rewrite (Hold i item Hi (eq_sym Hc)).
    apply list_elem_of_fmap. eexists. split; [|apply list_elem_of_lookup].
    2:{ exists i. apply list_lookup_insert_eq. by apply lookup_lt_Some in Hi. }
    done.
  - rewrite (Hnew Hnotin). unfold codes. rewrite fmap_app.
    apply elem_of_app. right. left.
Qed.

Lemma empty_code_accepted_witness :
  inv tea_cart
  ∧ ("" ∉ codes (lines tea_cart))
  ∧ lines (addLine tea_cart (Call.mk "" "Bag" "5"))
    = [Item.mk "A" "Tea" (Int 150) 1; Item.mk "" "Bag" (Int 5) 1]
  ∧ lines (addLine (addLine tea_cart (Call.mk "" "Bag" "5")) (Call.mk "" "Box" "9"))
    = [Item.mk "A" "Tea" (Int 150) 1; Item.mk "" "Bag" (Int 5) 2].
Proof.
  assert (inv tea_cart) as Hinv by apply (inv_addLines _ _ inv_init).
  assert (inv (addLine tea_cart (Call.mk "" "Bag" "5"))) as Hinv'
    by apply (inv_run _ _ Hinv).
  assert ("" ∉ codes (lines tea_cart)) as Hnotin.
  { change (codes (lines tea_cart)) with ["A"].
    intros Hin. apply elem_of_cons in Hin as [Hin|Hin]; [done|].
    by apply elem_of_nil in Hin. }
  assert ("Bag" ≠ "" ∧ "5" ≠ "" ∧ "Box" ≠ "" ∧ "9" ≠ "") as (Hbag & H5 & Hbox & H9)
    by done.
  split; [exact Hinv|]. split; [exact Hnotin|]. split.
  - exact (proj1 (proj2 (empty_code_accepted tea_cart "Bag" "5" Hinv Hbag H5))
             Hnotin).
  - exact (proj1 (proj2 (proj2
             (empty_code_accepted (addLine tea_cart (Call.mk "" "Bag" "5"))
                                  "Box" "9" Hinv' Hbox H9)))
             1%nat (Item.mk "" "Bag" (Int 5) 1) eq_refl eq_refl).
Defined.

(** ** The API clients *)

Lemma append_close_inj (s1 s2 : string) : s1 +:+ ")" = s2 +:+ ")" → s1 = s2.
Proof.
  revert s2. induction s1 as [|a s1 IH]; intros [|b s2]; cbn; intros Heq.
  - done.
  - injection Heq as _ Heq. by destruct s2.
  - injection Heq as _ Heq. by destruct s1.
  - injection Heq as -> Heq. f_equal. by apply IH.
Qed.

(** The text of a failure message determines the status it was built from. *)
Lemma status_in_message (prefix : string) (s1 s2 : N) :
  prefix +:+ pretty s1 +:+ ")" = prefix +:+ pretty s2 +:+ ")" → s1 = s2.
Proof.
  intros Heq. apply String.app_inj in Heq. apply append_close_inj in Heq.
  by apply (inj pretty) in Heq.
Qed.

Section ApiFacts.
Variable env : option string.
Variable url_parses : string → bool.
Variable net : Request → FetchOutcome.

(** Neither client writes to the component state. *)
Lemma postPurchase_frame (payload : JSON) (st : State) :
  (postPurchase env net payload st).2 = st.
Proof.
  unfold postPurchase, bind, fetch.
  destruct (net _) as [res|]; cbn; [|done].
  destruct (ok res); cbn; [|done].
  unfold json. by destruct (parsed res).
Qed.

Lemma fetchProductByCode_frame (code : string) (st : State) :
  (fetchProductByCode env url_parses net code st).2 = st.
Proof.
  unfold fetchProductByCode, bind, newURL, fetch.
  destruct (url_parses _); cbn; [|done].
  destruct (net _) as [res|]; cbn; [|done].
  destruct (ok res); cbn; [|done].
  unfold json. by destruct (parsed res).
Qed.

Lemma fetchProductByCode_responded (code : string) (st : State) (res : Response) :
  url_parses (API_BASE env) = true →
  net (lookup_request (UrlOf "/product" (API_BASE env) [("code", code)]))
  = Responded res →
  fetchProductByCode env url_parses net code st
  = if ok res then
      match parsed res with
      | Some data => (Return data, st)
      | None => (Throw SyntaxError, st)
      end
    else
      (Throw (Error ("商品マスタ照会に失敗しました (" +:+ pretty (status res) +:+ ")")),
       st).
Proof.
  intros Hurl Hnet. unfold fetchProductByCode, bind, newURL, fetch.
  rewrite Hurl. cbn. rewrite Hnet. cbn.
  destruct (ok res); cbn; [|done].
  unfold json. by destruct (parsed res).
Qed.

Lemma postPurchase_responded (payload : JSON) (st : State) (res : Response) :
  net (purchase_request env payload) = Responded res →
  postPurchase env net payload st
  = if ok res then
      match parsed res with
      | Some data => (Return data, st)
      | None => (Throw SyntaxError, st)
      end
    else
      (Throw (Error ("購入APIに失敗しました (" +:+ pretty (status res) +:+ ")")), st).
Proof.
  intros Hnet. unfold postPurchase, bind, fetch. rewrite Hnet. cbn.
  destruct (ok res); cbn; [|done].
  unfold json. by destruct (parsed res).
Qed.

Lemma postPurchase_unreachable (payload : JSON) (st : State) :
  net (purchase_request env payload) = Unreachable →
  postPurchase env net payload st = (Throw TypeError, st).
Proof. intros Hnet. unfold postPurchase, bind, fetch. by rewrite Hnet. Qed.
End ApiFacts.

Section ApiClaims.
Variable env : option string.
Variable url_parses : string → bool.
Variable net : Request → FetchOutcome.

(** C6 (checkout failure preserves the cart).  When a purchase submission
    fails -- [postPurchase] throws for a transport failure, or returns a
    body whose success flag is false -- the component state after the
    attempt is the state before it: the cart has the same lines, with the
    same code, name, price and qty, in the same order, and so the same
    number of lines and the same subtotal. *)
Theorem purchase_failure_preserves_cart
    (payload : JSON) (st st' : State) (result : Completion JSON) :
  postPurchase env net payload st = (result, st') →
  purchase_failed result →
  st' = st
  ∧ lines st' = lines st
  ∧ length (lines st') = length (lines st)
  ∧ total st' = total st.
Proof.
  intros Hrun _. pose proof (postPurchase_frame env net payload st) as Hframe.
  rewrite Hrun in Hframe. cbn in Hframe. by subst st'.
Qed.

(** C7 (lookup error taxonomy).  When the lookup request is answered
    with a status outside 200..299, [fetchProductByCode] throws an
    [Error] whose message ends in that status in parentheses, and the
    message determines the status.  When it is answered with a success
    status and the body [null], [fetchProductByCode] returns [null] as
    its value and throws nothing. *)
Theorem lookup_error_taxonomy (code : string) (st : State) (res : Response) :
  url_parses (API_BASE env) = true →
  net (lookup_request (UrlOf "/product" (API_BASE env) [("code", code)]))
  = Responded res →
  (ok res = false →
   fetchProductByCode env url_parses net code st
   = (Throw (Error ("商品マスタ照会に失敗しました (" +:+ pretty (status res) +:+ ")")),
      st))
  ∧ (∀ other : N,
       "商品マスタ照会に失敗しました (" +:+ pretty (status res) +:+ ")"
       = "商品マスタ照会に失敗しました (" +:+ pretty other +:+ ")" →
       status res = other)
  ∧ (ok res = true → parsed res = Some JNull →
     fetchProductByCode env url_parses net code st = (Return JNull, st)).
Proof.
  intros Hurl Hnet.
  pose proof (fetchProductByCode_responded env url_parses net code st res
                Hurl Hnet) as Hrun.
  split; [|split].
  - intros Hok. by rewrite Hrun, Hok.
  - intros other. apply status_in_message.
  - intros Hok Hnull. by rewrite Hrun, Hok, Hnull.
Qed.

(** C8 (logical purchase failure is distinguished).  When the purchase
    request is answered with a status in 200..299 and a body whose success
    flag is false, [postPurchase] returns that body to its caller, flag
    included, and throws nothing.  Against any backend that answers the
    same request with a status outside 200..299, or does not answer at
    all, [postPurchase] throws -- an [Error] with the status, or a
    [TypeError].  The two completions differ, so a caller can tell a
    rejected purchase from an unreachable service. *)
Theorem logical_failure_distinguished
    (payload : JSON) (st : State) (res : Response) (data : JSON) :
  net (purchase_request env payload) = Responded res →
  ok res = true →
  parsed res = Some data →
  get "success" data = Some (JBool false) →
  postPurchase env net payload st = (Return data, st)
  ∧ (∀ (net' : Request → FetchOutcome) (res' : Response),
       net' (purchase_request env payload) = Responded res' →
       ok res' = false →
       postPurchase env net' payload st
       = (Throw (Error ("購入APIに失敗しました (" +:+ pretty (status res') +:+ ")")),
          st)
       ∧ postPurchase env net' payload st ≠ postPurchase env net payload st)
  ∧ (∀ net' : Request → FetchOutcome,
       net' (purchase_request env payload) = Unreachable →
       postPurchase env net' payload st = (Throw TypeError, st)
       ∧ postPurchase env net' payload st ≠ postPurchase env net payload st).
Proof.
  intros Hnet Hok Hdata Hflag.
  assert (postPurchase env net payload st = (Return data, st)) as Hrun.
  { by rewrite (postPurchase_responded env net payload st res Hnet), Hok, Hdata. }
  split; [exact Hrun|]. split.
  - intros net' res' Hnet' Hok'.
    rewrite (postPurchase_responded env net' payload st res' Hnet'), Hok', Hrun.
    split; [done|congruence].
  - intros net' Hnet'.
    rewrite (postPurchase_unreachable env net' payload st Hnet'), Hrun.
    split; [done|congruence].
Qed.
End ApiClaims.

Lemma purchase_failure_preserves_cart_witness :
  purchase_failed (postPurchase None net_500 tea_payload tea_cart).1
  ∧ lines (postPurchase None net_500 tea_payload tea_cart).2
    = [Item.mk "A" "Tea" (Int 150) 1]
  ∧ purchase_failed (postPurchase None net_rejecting tea_payload tea_cart).1
  ∧ lines (postPurchase None net_rejecting tea_payload tea_cart).2
    = [Item.mk "A" "Tea" (Int 150) 1].
Proof.
  assert (purchase_failed (postPurchase None net_500 tea_payload tea_cart).1)
    as Hthrown by exact I.
  assert (purchase_failed (postPurchase None net_rejecting tea_payload tea_cart).1)
    as Hrejected by reflexivity.
  split; [exact Hthrown|]. split; [|split; [exact Hrejected|]].
  - rewrite (proj1 (proj2 (purchase_failure_preserves_cart None net_500
               tea_payload tea_cart _ _ (surjective_pairing _) Hthrown))).
    reflexivity.
  - rewrite (proj1 (proj2 (purchase_failure_preserves_cart None net_rejecting
               tea_payload tea_cart _ _ (surjective_pairing _) Hrejected))).
    reflexivity.
Defined.

Lemma lookup_error_taxonomy_witness :
  ok {| status := 404; parsed := Some JNull |} = false
  ∧ fetchProductByCode None (λ _, true) net_404 "4901234567894" init
    = (Throw (Error "商品マスタ照会に失敗しました (404)"), init)
  ∧ ok {| status := 200; parsed := Some JNull |} = true
  ∧ fetchProductByCode None (λ _, true) net_null "4901234567894" init
    = (Return JNull, init).
Proof.
  split; [reflexivity|]. split; [|split; [reflexivity|]].
  - exact (proj1 (lookup_error_taxonomy None (λ _, true) net_404
                    "4901234567894" init _ eq_refl eq_refl) eq_refl).
  - exact (proj2 (proj2 (lookup_error_taxonomy None (λ _, true) net_null
                    "4901234567894" init _ eq_refl eq_refl)) eq_refl eq_refl).
Defined.

Lemma logical_failure_distinguished_witness :
  postPurchase None net_rejecting tea_payload tea_cart
  = (Return (JObject [("success", JBool false); ("total_amount", JNumber 0)]),
     tea_cart)
  ∧ postPurchase None net_500 tea_payload tea_cart
    = (Throw (Error "購入APIに失敗しました (500)"), tea_cart).
Proof.
  pose proof (logical_failure_distinguished None net_rejecting tea_payload
                tea_cart _ _ eq_refl eq_refl eq_refl eq_refl) as (Hr & Ht & _).
  split; [exact Hr|].
  exact (proj1 (Ht net_500 _ eq_refl eq_refl)).
Defined.

(** * Further properties of the page *)

(** ** Operator sessions *)


Lemma wf_run (evs : list event) (st : State) : wf st → wf (run evs st).
Proof.
  revert st. induction evs as [|e evs IH]; intros st Hwf; [done|].
  unfold run in *. cbn [fold_left]. apply IH. by apply wf_step.
Qed.

Lemma handleAdd_guarded (st : State) : guarded st = true → handleAdd st = st.
Proof. intros Hg. unfold handleAdd. by rewrite Hg. Qed.

Lemma staged_handleAdd (st : State) :
  staged (handleAdd st)
  = if guarded st then staged st else Call.mk "" "" "".
Proof.
  unfold handleAdd. destruct (guarded st); [done|].
  by destruct (find _ _ _).
Qed.

Lemma guarded_staged (st : State) :
  guarded st = negb (Call.passes (staged st)).
Proof. rewrite passes_staged. by destruct (guarded st). Qed.

(** The lines after a sequence of events, on the list-level view. *)
Lemma lines_run_clicks (evs : list event) (st : State) :
  wf st →
  lines (run evs st) = fold_left add_view (clicks evs (staged st)) (lines st).
Proof.
  revert st. induction evs as [|e evs IH]; intros st Hwf; [done|].
  unfold run in *. cbn [fold_left].
  rewrite IH by (by apply wf_step).
  destruct e as [v|v|v|]; cbn [step clicks]; [done..|].
  rewrite staged_handleAdd, lines_handleAdd, guarded_staged by done.
  destruct (Call.passes (staged st)) eqn:Hp; cbn [negb fold_left]; [done|].
  unfold add_view. by rewrite Hp.
Qed.

Section Keeps.
Implicit Types (l : list Item.t) (c : string) (k : Call.t) (ks : list Call.t).

Lemma keeps_refl l : keeps l l.
Proof. intros i item Hi. exists item. by rewrite Hi. Qed.

Lemma keeps_trans l1 l2 l3 : keeps l1 l2 → keeps l2 l3 → keeps l1 l3.
Proof.
  intros H12 H23 i item Hi.
  destruct (H12 i item Hi) as (item2 & Hi2 & Hc2 & Hn2 & Hp2 & Hq2).
  destruct (H23 i item2 Hi2) as (item3 & Hi3 & Hc3 & Hn3 & Hp3 & Hq3).
  exists item3. repeat split; [done|congruence..|lia].
Qed.

Lemma keeps_length l l' : keeps l l' → (length l ≤ length l')%nat.
Proof.
  intros Hkeeps.
  destruct (decide (length l ≤ length l')%nat) as [|Hlt]; [done|].
  destruct (lookup_lt_is_Some_2 l (length l')) as [item Hitem]; [lia|].
  destruct (Hkeeps _ _ Hitem) as (item' & Hitem' & _).
  apply lookup_lt_Some in Hitem'. lia.
Qed.

Lemma merge_into_keeps c l l' : merge_into c l = Some l' → keeps l l'.
Proof.
  revert l'. induction l as [|item0 l IH]; intros l'; [done|].
  cbn [merge_into]. destruct (String.eqb (Item.code item0) c).
  - intros [= <-] [|i] item Hi; cbn in Hi.
    + injection Hi as <-. exists (Item.incr_qty item0).
      repeat split; [done..|cbn; lia].
    + exists item. repeat split; [done..|lia].
  - destruct (merge_into c l) as [l0|]; [|done].
    intros [= <-] [|i] item Hi; cbn in Hi.
    + injection Hi as <-. exists item0. repeat split; [done..|lia].
    + by apply (IH l0).
Qed.

Lemma add_view_keeps l k : keeps l (add_view l k).
Proof.
  unfold add_view. destruct (Call.passes k); [|apply keeps_refl].
  destruct (merge_into (Call.code k) l) as [l'|] eqn:Hm.
  - by apply merge_into_keeps in Hm.
  - intros i item Hi. exists item.
    repeat split; [|done..|lia]. by apply lookup_app_l_Some.
Qed.

Lemma fold_add_view_keeps ks l : keeps l (fold_left add_view ks l).
Proof.
  revert l. induction ks as [|k ks IH]; intros l; [apply keeps_refl|].
  cbn [fold_left]. eapply keeps_trans; [apply add_view_keeps|apply IH].
Qed.

Lemma merge_into_units c l l' :
  merge_into c l = Some l' → units l' = units l + 1.
Proof.
  revert l'. induction l as [|item0 l IH]; intros l'; [done|].
  cbn [merge_into]. destruct (String.eqb (Item.code item0) c).
  - intros [= <-]. cbn. lia.
  - destruct (merge_into c l) as [l0|]; [|done].
    intros [= <-]. cbn. rewrite (IH l0) by done. lia.
Qed.

Lemma units_app l1 l2 : units (l1 ++ l2) = units l1 + units l2.
Proof. induction l1 as [|item l1 IH]; cbn; [done|]. rewrite IH. lia. Qed.

Lemma add_view_units l k :
  units (add_view l k) = units l + (if Call.passes k then 1 else 0).
Proof.
  unfold add_view. destruct (Call.passes k); [|lia].
  destruct (merge_into (Call.code k) l) as [l'|] eqn:Hm.
  - by apply merge_into_units in Hm.
  - rewrite units_app. cbn. lia.
Qed.

Lemma clicks_pass (evs : list event) (s : Call.t) :
  Forall (λ k, Call.passes k = true) (clicks evs s).
Proof.
  revert s. induction evs as [|e evs IH]; intros s; [by apply Forall_nil|].
  destruct e; cbn [clicks]; [apply IH..|].
  destruct (Call.passes s) eqn:Hp; [|apply IH].
  apply Forall_cons. split; [done|apply IH].
Qed.

Lemma fold_add_view_units ks l :
  Forall (λ k, Call.passes k = true) ks →
  units (fold_left add_view ks l) = units l + Z.of_nat (length ks).
Proof.
  intros Hall. revert l. induction Hall as [|k ks Hk _ IH]; intros l.
  - cbn. lia.
  - cbn [fold_left length]. rewrite IH, add_view_units, Hk. lia.
Qed.

Lemma merge_into_Forall (P : Item.t → Prop) c l l' :
  (∀ item, P item → P (Item.incr_qty item)) →
  Forall P l → merge_into c l = Some l' → Forall P l'.
Proof.
  intros Hincr Hall. revert l'.
  induction Hall as [|item0 l H0 Hall IH]; intros l'; [done|].
  cbn [merge_into]. destruct (String.eqb (Item.code item0) c).
  - intros [= <-]. apply Forall_cons. split; [by apply Hincr|done].
  - destruct (merge_into c l) as [l0|]; [|done].
    intros [= <-]. apply Forall_cons. split; [done|by apply IH].
Qed.

Lemma fold_add_view_qty ks l :
  Forall (λ item, 1 ≤ Item.qty item) l →
  Forall (λ item, 1 ≤ Item.qty item) (fold_left add_view ks l).
Proof.
  revert l. induction ks as [|k ks IH]; intros l Hall; [done|].
  cbn [fold_left]. apply IH. unfold add_view.
  destruct (Call.passes k); [|done].
  destruct (merge_into (Call.code k) l) as [l'|] eqn:Hm.
  - apply (merge_into_Forall _ (Call.code k) l l'); [|done..].
    intros item Hq. cbn. lia.
  - apply Forall_app. split; [done|]. apply Forall_singleton. cbn. lia.
Qed.
End Keeps.

(** X1 (a second press adds nothing).  Pressing the add button twice in a
    row has the effect of pressing it once: a press that passes the guard
    clears the three staged fields, so the press after it is stopped by the
    guard; a press that is stopped leaves the staged fields as they are. *)
Theorem double_press (st : State) :
  handleAdd (handleAdd st) = handleAdd st
  ∧ staged (handleAdd st)
    = (if guarded st then staged st else Call.mk "" "" "").
Proof.
  split; [|apply staged_handleAdd].
  apply handleAdd_guarded.
  destruct (guarded st) eqn:Hg.
  - by rewrite (handleAdd_guarded st Hg).
  - by rewrite guarded_staged, staged_handleAdd, Hg.
Qed.

(** X2 (events amount to calls).  On a well-formed store, the cart after any
    sequence of operator events -- edits of the three fields and presses of
    the add button, in any order -- is the cart after the add-to-cart calls
    [clicks] reads off the events: one call per press that passed the guard,
    with the fields staged at that press.  All of these calls pass the
    guard. *)
Theorem events_are_calls (evs : list event) (st : State) :
  wf st →
  lines (run evs st) = lines (addLines (clicks evs (staged st)) st)
  ∧ Forall (λ k, Call.passes k = true) (clicks evs (staged st)).
Proof.
  intros Hwf. split; [|apply clicks_pass].
  by rewrite lines_run_clicks, lines_addLines.
Qed.

Lemma events_are_calls_witness :
  wf tea_cart
  ∧ clicks tea_session (staged tea_cart) = [Call.mk "A" "Tea" "150"]
  ∧ lines (run tea_session tea_cart) = [Item.mk "A" "Tea" (Int 150) 2].
Proof.
  assert (wf tea_cart) as Hwf by apply (wf_addLines _ _ wf_init).
  split; [exact Hwf|]. split; [reflexivity|].
  rewrite (proj1 (events_are_calls tea_session tea_cart Hwf)).
  reflexivity.
Defined.

(** X3 (the cart only grows).  On a well-formed store, no sequence of
    operator events removes a line, moves one, or changes its code, name or
    price, and no qty ever goes down: every line of the cart is found at the
    same position afterwards, with at least its qty.  The number of lines
    does not go down either. *)
Theorem cart_only_grows (evs : list event) (st : State) :
  wf st →
  keeps (lines st) (lines (run evs st))
  ∧ (length (lines st) ≤ length (lines (run evs st)))%nat.
Proof.
  intros Hwf.
  assert (keeps (lines st) (lines (run evs st))) as Hkeeps.
  { rewrite lines_run_clicks by done. apply fold_add_view_keeps. }
  split; [exact Hkeeps|]. by apply keeps_length.
Qed.

Lemma cart_only_grows_witness :
  wf tea_cart
  ∧ keeps (lines tea_cart) (lines (run tea_session tea_cart))
  ∧ (length (lines tea_cart) ≤ length (lines (run tea_session tea_cart)))%nat.
Proof.
  assert (wf tea_cart) as Hwf by apply (wf_addLines _ _ wf_init).
  split; [exact Hwf|]. exact (cart_only_grows tea_session tea_cart Hwf).
Defined.

(** X4 (qty is at least 1).  In every cart the operator can reach from the
    initial state, every line has a qty of at least 1. *)
Theorem qty_at_least_one (evs : list event) :
  Forall (λ item, 1 ≤ Item.qty item) (lines (run evs init)).
Proof.
  rewrite lines_run_clicks by apply wf_init.
  apply fold_add_view_qty. apply Forall_nil_2.
Qed.

(** X5 (units count the presses that passed).  On a well-formed store, the
    sum of the qty of all lines after a sequence of operator events is the
    sum before it plus the number of presses of the add button that passed
    the guard: each such press adds exactly one unit, to a new line or to an
    existing one, and nothing else changes a qty. *)
Theorem units_count_presses (evs : list event) (st : State) :
  wf st →
  units (lines (run evs st))
  = units (lines st) + Z.of_nat (length (clicks evs (staged st))).
Proof.
  intros Hwf. rewrite lines_run_clicks by done.
  apply fold_add_view_units, clicks_pass.
Qed.

Lemma units_count_presses_witness :
  wf tea_cart
  ∧ units (lines tea_cart) = 1
  ∧ length (clicks tea_session (staged tea_cart)) = 1%nat
  ∧ units (lines (run tea_session tea_cart)) = 2.
Proof.
  assert (wf tea_cart) as Hwf by apply (wf_addLines _ _ wf_init).
  split; [exact Hwf|]. split; [reflexivity|]. split; [reflexivity|].
  exact (units_count_presses tea_session tea_cart Hwf).
Defined.

(** ** The subtotal along a session *)

Lemma nadd_comm (a b : number) : nadd a b = nadd b a.
Proof. destruct a, b; cbn; [done..|]. f_equal. lia. Qed.







Lemma deref_length (h : list Item.t) (arr : list ref) :
  Forall (λ r, (r < length h)%nat) arr → length (deref h arr) = length arr.
Proof.
  induction 1 as [|r arr Hr _ IH]; [done|].
  destruct (lookup_lt_is_Some_2 h r Hr) as [item Hitem].
  rewrite (deref_cons_Some _ _ _ _ Hitem). cbn [length]. by rewrite IH.
Qed.






(** ** The rendered list *)



(** X9 (the placeholder does not come back).  On a well-formed store whose
    cart has a line, the page shows rows after every sequence of operator
    events, at least as many as before; no event brings the placeholder
    back. *)
Theorem placeholder_never_returns (st : State) (evs : list event) :
  wf st → lines st ≠ [] →
  ∃ rows : list ListItem.t,
    render_list (run evs st) = Rows rows
    ∧ (length (lines st) ≤ length rows)%nat.
Proof.
  intros Hwf Hne.
  pose proof (wf_run evs st Hwf) as [_ Hall].
  pose proof (deref_length _ _ Hall) as Hlen. fold (lines (run evs st)) in Hlen.
  pose proof (fold_add_view_keeps (clicks evs (staged st)) (lines st)) as Hkeeps.
  rewrite <- lines_run_clicks in Hkeeps by done.
  apply keeps_length in Hkeeps.
  assert (0 < length (lines st))%nat as Hpos
    by (destruct (lines st); [done|cbn; lia]).
  unfold render_list.
  destruct (length (cart (run evs st)) =? 0)%nat eqn:Hz.
  - apply Nat.eqb_eq in Hz. lia.
  - eexists. split; [done|]. by rewrite length_fmap.
Qed.

Lemma placeholder_never_returns_witness :
  wf tea_cart
  ∧ lines tea_cart ≠ []
  ∧ ∃ rows : list ListItem.t,
      render_list (run tea_session tea_cart) = Rows rows
      ∧ (length (lines tea_cart) ≤ length rows)%nat.
Proof.
  assert (wf tea_cart) as Hwf by apply (wf_addLines _ _ wf_init).
  assert (lines tea_cart ≠ []) as Hne by done.
  split; [exact Hwf|]. split; [exact Hne|].
  exact (placeholder_never_returns tea_cart tea_session Hwf Hne).
Defined.

(** ** Reading back a rendered number *)












(** ** The API clients, from the caller's side *)

Section ApiExtras.
Variable env : option string.
Variable url_parses : string → bool.
Variable net : Request → FetchOutcome.

(** X11 (what a lookup completion tells the caller).  Whatever
    [fetchProductByCode] completes with, the component state is untouched,
    and the completion determines what happened: a returned value is
    exactly the JSON body of a 2xx answer to the GET request for that code,
    whatever its shape; an [Error] carries the status of an answer outside
    200..299; a [SyntaxError] means a 2xx answer whose body is not JSON; a
    [TypeError] means that the base URL did not parse or that no answer
    came. *)
Theorem lookup_completion_sound
    (code : string) (st st' : State) (result : Completion JSON) :
  fetchProductByCode env url_parses net code st = (result, st') →
  st' = st
  ∧ match result with
    | Return data =>
        url_parses (API_BASE env) = true
        ∧ ∃ res : Response,
            net (lookup_request (UrlOf "/product" (API_BASE env) [("code", code)]))
            = Responded res
            ∧ ok res = true ∧ parsed res = Some data
    | Throw (Error message) =>
        ∃ res : Response,
          net (lookup_request (UrlOf "/product" (API_BASE env) [("code", code)]))
          = Responded res
          ∧ ok res = false
          ∧ message = "商品マスタ照会に失敗しました (" +:+ pretty (status res) +:+ ")"
    | Throw SyntaxError =>
        ∃ res : Response,
          net (lookup_request (UrlOf "/product" (API_BASE env) [("code", code)]))
          = Responded res
          ∧ ok res = true ∧ parsed res = None
    | Throw TypeError =>
        url_parses (API_BASE env) = false
        ∨ net (lookup_request (UrlOf "/product" (API_BASE env) [("code", code)]))
          = Unreachable
    end.
Proof.
  unfold fetchProductByCode, bind, newURL, fetch.
  destruct (url_parses (API_BASE env)) eqn:Hurl; cbn.
  - destruct (net _) as [res|] eqn:Hnet; cbn.
    + destruct (ok res) eqn:Hok; cbn.
      * unfold json. destruct (parsed res) as [data|] eqn:Hbody; cbn;
          intros [= <- <-]; (split; [done|]); eauto 6.
      * intros [= <- <-]. split; [done|]. eauto.
    + intros [= <- <-]. split; [done|]. by right.
  - intros [= <- <-]. split; [done|]. by left.
Qed.

(** X12 (what a purchase completion tells the caller).  A value returned by
    [postPurchase] is exactly the JSON body of a 2xx answer to the POST
    request that carries the payload -- the success flag of the body is not
    looked at; an [Error] carries the status of an answer outside 200..299;
    a [SyntaxError] means a 2xx answer whose body is not JSON; a
    [TypeError] means that no answer came. *)
Theorem purchase_completion_sound
    (payload : JSON) (st st' : State) (result : Completion JSON) :
  postPurchase env net payload st = (result, st') →
  match result with
  | Return data =>
      ∃ res : Response,
        net (purchase_request env payload) = Responded res
        ∧ ok res = true ∧ parsed res = Some data
  | Throw (Error message) =>
      ∃ res : Response,
        net (purchase_request env payload) = Responded res
        ∧ ok res = false
        ∧ message = "購入APIに失敗しました (" +:+ pretty (status res) +:+ ")"
  | Throw SyntaxError =>
      ∃ res : Response,
        net (purchase_request env payload) = Responded res
        ∧ ok res = true ∧ parsed res = None
  | Throw TypeError => net (purchase_request env payload) = Unreachable
  end.
Proof.
  unfold postPurchase, bind, fetch.
  destruct (net _) as [res|] eqn:Hnet; cbn.
  - destruct (ok res) eqn:Hok; cbn.
    + unfold json. destruct (parsed res) as [data|] eqn:Hbody; cbn;
        intros [= <- <-]; eauto 6.
    + intros [= <- <-]. eauto.
  - by intros [= <- <-].
Qed.

(** X13 (the clients do not read the component state).  The completion of
    either client is the same from every component state: neither the
    staged fields nor the cart enter a lookup, and what a purchase submits
    is its payload argument, never the cart of the page. *)
Theorem clients_ignore_state (code : string) (payload : JSON) (st1 st2 : State) :
  (fetchProductByCode env url_parses net code st1).1
  = (fetchProductByCode env url_parses net code st2).1
  ∧ (postPurchase env net payload st1).1 = (postPurchase env net payload st2).1.
Proof.
  split.
  - unfold fetchProductByCode, bind, newURL, fetch.
    destruct (url_parses _); cbn; [|done].
    destruct (net _) as [res|]; cbn; [|done].
    destruct (ok res); cbn; [|done].
    unfold json. by destruct (parsed res).
  - unfold postPurchase, bind, fetch.
    destruct (net _) as [res|]; cbn; [|done].
    destruct (ok res); cbn; [|done].
    unfold json. by destruct (parsed res).
Qed.
End ApiExtras.

(** X14 (one request each).  A lookup asks the network one thing: a GET of
    [/product] on the base URL with the search parameter [code] set to the
    code, with [cache: "no-store"] and no body.  A purchase asks one thing:
    a POST to the base URL followed by [/purchase], with the JSON content
    type and the payload as body.  Two networks that answer that request
    alike give the same completion; and with a base URL that does not
    parse, a lookup throws a [TypeError] whatever the network is. *)
Theorem one_request_each
    (env : option string) (url_parses : string → bool)
    (net1 net2 : Request → FetchOutcome) (st : State) :
  (∀ code : string,
     net1 {| url := UrlOf "/product" (API_BASE env) [("code", code)];
             method := GET; headers := []; body := None;
             cache := Some "no-store" |}
     = net2 {| url := UrlOf "/product" (API_BASE env) [("code", code)];
               method := GET; headers := []; body := None;
               cache := Some "no-store" |} →
     fetchProductByCode env url_parses net1 code st
     = fetchProductByCode env url_parses net2 code st)
  ∧ (∀ payload : JSON,
       net1 {| url := UrlText (API_BASE env +:+ "/purchase"); method := POST;
               headers := [("Content-Type", "application/json")];
               body := Some payload; cache := None |}
       = net2 {| url := UrlText (API_BASE env +:+ "/purchase"); method := POST;
                 headers := [("Content-Type", "application/json")];
                 body := Some payload; cache := None |} →
       postPurchase env net1 payload st = postPurchase env net2 payload st)
  ∧ (∀ code : string,
       url_parses (API_BASE env) = false →
       fetchProductByCode env url_parses net1 code st = (Throw TypeError, st)).
Proof.
  split; [|split].
  - intros code Hnet. unfold fetchProductByCode, bind, newURL, fetch.
    destruct (url_parses _); cbn; [|done].
    unfold lookup_request. by rewrite Hnet.
  - intros payload Hnet. unfold postPurchase, bind, fetch, purchase_request.
    by rewrite Hnet.
  - intros code Hurl. unfold fetchProductByCode, bind, newURL.
    by rewrite Hurl.
Qed.

Lemma lookup_completion_sound_witness :
  fetchProductByCode None (λ _, true) net_product "A" tea_cart
  = (Return (JObject [ ("prd_id", JNumber 1); ("code", JString "A");
                       ("name", JString "Tea"); ("price", JNumber 150) ]),
     tea_cart)
  ∧ staged (fetchProductByCode None (λ _, true) net_product "A" tea_cart).2
    = Call.mk "" "" ""
  ∧ ∃ res : Response,
      net_product (lookup_request
                     (UrlOf "/product" (API_BASE None) [("code", "A")]))
      = Responded res
      ∧ ok res = true.
Proof.
  pose proof (lookup_completion_sound None (λ _, true) net_product "A" tea_cart
                _ _ eq_refl) as (Hst & _ & res & Hnet & Hok & _).
  split; [reflexivity|]. split; [reflexivity|]. by exists res.
Defined.

Lemma purchase_completion_sound_witness :
  postPurchase None net_garbled tea_payload tea_cart
  = (Throw SyntaxError, tea_cart)
  ∧ ∃ res : Response,
      net_garbled (purchase_request None tea_payload) = Responded res
      ∧ ok res = true ∧ parsed res = None.
Proof.
  split; [reflexivity|].
  exact (purchase_completion_sound None net_garbled tea_payload tea_cart
           _ _ eq_refl).
Defined.

Lemma one_request_each_witness :
  fetchProductByCode None (λ _, true) net_404 "A" init
  = fetchProductByCode None (λ _, true)
      (λ req, match method req with
              | GET => net_404 req
              | POST => net_down req
              end) "A" init
  ∧ fetchProductByCode None (λ _, false) net_product "A" init
    = (Throw TypeError, init).
Proof.
  pose proof (one_request_each None (λ _, true) net_404
                (λ req, match method req with
                        | GET => net_404 req
                        | POST => net_down req
                        end) init) as (Hlookup & _ & _).
  pose proof (one_request_each None (λ _, false) net_product net_product init)
    as (_ & _ & Hbase).
  split; [exact (Hlookup "A" eq_refl)|exact (Hbase "A" eq_refl)].
Defined.
